(** * RBLX React LSP: the two VSCode front-ends and the language-server core

    Part I embeds the two extension entry points
    ([vscode-extension/src/extension.ts] and
    [rblx-react-lsp/src/extension.ts]) as scripts over the host API they
    call: every call into [path], [vscode] and [vscode-languageclient] is
    an explicit host call whose completion (normal or thrown) is decided
    by the host, and the module-level [client] variable is explicit state.

    Part II models the components of the language server the front-ends
    launch ([lsp-server]), whose code is not among the sources; each of
    these definitions is written from the design specification and says
    so. *)

From Stdlib Require Strings.Byte.
From stdpp Require Import gmap strings list.
From Equations Require Import Equations.

Local Open Scope string_scope.
Local Open Scope nat_scope.
Local Open Scope list_scope.

(** ** Part I: the extension front-ends *)

(** *** Values of the host API *)

Module Host.

(** [TransportKind] of vscode-languageclient/node. *)
Inductive TransportKind := stdio | ipc | pipe | socket.

(** Objects handed out by the host are references. *)
Inductive FileSystemWatcher := WatcherRef (n : nat).
Inductive LanguageClient := ClientRef (n : nat).
Inductive Promise := PromiseRef (n : nat).

(** [vscode.ExtensionContext]: only its identity matters to the glue;
    what [asAbsolutePath] answers is up to the host. *)
Record ExtensionContext := { extensionPath : string }.

(** [{ command, transport }] *)
Record Executable := { command : string; transport : TransportKind }.

(** [ServerOptions] as the object literal [{ run, debug }]. *)
Record ServerOptions := { run : Executable; debug : Executable }.

(** One entry of a document selector: [{ scheme, language }]. *)
Record DocumentFilter := { scheme : string; language : string }.

Record SynchronizeOptions := { fileEvents : FileSystemWatcher }.

Record LanguageClientOptions :=
  { documentSelector : list DocumentFilter;
    synchronize : SynchronizeOptions }.

(** A value thrown by a host call. *)
Inductive JsError := Thrown (message : string).

(** How a call ends: normally with a value, or abruptly with a throw. *)
Inductive Completion (A : Type) :=
| Normal (a : A)
| Throw (e : JsError).
Arguments Normal {A} a.
Arguments Throw {A} e.

(** The arrow functions the glue passes to the host.  The only one is
    [() => { console.log(msg) }]. *)
Inductive Callback := LogCallback (message : string).

(** The calls the two files make, indexed by the type of their result. *)
Inductive Call : Type -> Type :=
| PathJoin (segments : list string) : Call string
| AsAbsolutePath (context : ExtensionContext) (relativePath : string) : Call string
| CreateFileSystemWatcher (globPattern : string) : Call FileSystemWatcher
| ConsoleLog (message : string) : Call unit
| NewLanguageClient (id name : string) (serverOptions : ServerOptions)
    (clientOptions : LanguageClientOptions) : Call LanguageClient
| ClientStart (c : LanguageClient) : Call Promise
| PromiseThen (p : Promise) (onFulfilled : Callback) : Call Promise
| ClientStop (c : LanguageClient) : Call Promise.

(** One entry of the log of calls: the call and how it completed. *)
Inductive Event := Did (R : Type) (c : Call R) (r : Completion R).
Arguments Did {R} c r.

(** Names of the API entry points, to speak about the shape of a log. *)
Inductive Api :=
| path_join | context_asAbsolutePath | workspace_createFileSystemWatcher
| console_log | new_LanguageClient | client_start | promise_then
| client_stop.

Definition api_of_call {R} (c : Call R) : Api :=
  match c with
  | PathJoin _ => path_join
  | AsAbsolutePath _ _ => context_asAbsolutePath
  | CreateFileSystemWatcher _ => workspace_createFileSystemWatcher
  | ConsoleLog _ => console_log
  | NewLanguageClient _ _ _ _ => new_LanguageClient
  | ClientStart _ => client_start
  | PromiseThen _ _ => promise_then
  | ClientStop _ => client_stop
  end.

Definition api_of (e : Event) : Api :=
  match e with Did c _ => api_of_call c end.

(** The error a call of the log threw, if it threw. *)
Definition thrown_by (e : Event) : option JsError :=
  match e with Did _ (Throw x) => Some x | Did _ (Normal _) => None end.

(** The arguments of every [new LanguageClient(...)] in a log. *)
Definition constructed (e : Event)
  : option (string * string * ServerOptions * LanguageClientOptions) :=
  match e with
  | Did (NewLanguageClient i n so co) _ => Some (i, n, so, co)
  | Did _ _ => None
  end.

(** The clients on which [start()] and [stop()] were called in a log. *)
Definition started (e : Event) : option LanguageClient :=
  match e with Did (ClientStart c) _ => Some c | Did _ _ => None end.

Definition stopped (e : Event) : option LanguageClient :=
  match e with Did (ClientStop c) _ => Some c | Did _ _ => None end.

Section Script.
(** The state of the host (editor, file system, child processes). *)
Context {World : Type}.

(** The host answers each call and moves to its next state. *)
Definition Handler := forall R, Call R -> World -> Completion R * World.

(** State of one loaded extension module. *)
Record Runtime :=
  { client : option LanguageClient;   (* [let client: LanguageClient;] *)
    world : World;
    log : list Event }.

(** A piece of extension code. *)
Definition Script (A : Type) := Handler -> Runtime -> Completion A * Runtime.

Definition ret {A} (a : A) : Script A := fun _ rt => (Normal a, rt).

(** Sequencing; a throw skips the rest, as there is no [try]. *)
Definition bind {A B} (m : Script A) (k : A -> Script B) : Script B :=
  fun h rt =>
    match m h rt with
    | (Normal a, rt') => k a h rt'
    | (Throw e, rt') => (Throw e, rt')
    end.

Definition call {R} (c : Call R) : Script R :=
  fun h rt =>
    let (r, w) := h R c (world rt) in
    (r, {| client := client rt; world := w; log := log rt ++ [Did c r] |}).

(** Reading and assigning the module-level variable. *)
Definition readClient : Script (option LanguageClient) :=
  fun _ rt => (Normal (client rt), rt).

Definition assignClient (c : LanguageClient) : Script unit :=
  fun _ rt =>
    (Normal tt, {| client := Some c; world := world rt; log := log rt |}).

(** [client.m(...)]: a member access on [undefined] is a TypeError. *)
Definition derefClient : Script LanguageClient :=
  fun _ rt =>
    match client rt with
    | Some c => (Normal c, rt)
    | None =>
        (Throw (Thrown "TypeError: Cannot read properties of undefined"), rt)
    end.
End Script.

Arguments Handler World : clear implicits.
Arguments Runtime World : clear implicits.
Arguments Script World A : clear implicits.

(** The completion of [return e] for a call [e]: the value is passed
    on, a throw stays the throw. *)
Definition returned {A B} (f : A -> B) (r : Completion A) : Completion B :=
  match r with
  | Normal a => Normal (f a)
  | Throw e => Throw e
  end.

(** What a run from [rt] to [rt'] added to the log. *)
Definition since {World} (rt rt' : Runtime World) : list Event :=
  drop (length (log rt)) (log rt').

(** A freshly loaded module: [client] is still undefined. *)
Definition loaded {World} (w : World) : Runtime World :=
  {| client := None; world := w; log := [] |}.

End Host.

Import Host.

(** Scripts are written with stdpp's monad notation [x ← c; k]. *)
#[global] Instance Script_ret {World} : MRet (Script World) := @ret World.
#[global] Instance Script_bind {World} : MBind (Script World) :=
  fun A B k m => bind m k.

(** *** [vscode-extension/src/extension.ts] *)

Module VscodeExtension.
Section Extension.
Context {World : Type}.

Definition activate (context : ExtensionContext) : Script World unit :=
  (* const serverPath = context.asAbsolutePath(path.join(...)) *)
  rel ← call (PathJoin [".."; "lsp-server"; "target"; "debug"; "React_lSP"]);
  serverPath ← call (AsAbsolutePath context rel);
  (* const serverOptions: ServerOptions = { run: ..., debug: ... } *)
  let serverOptions :=
    {| run := {| command := serverPath; transport := stdio |};
       debug := {| command := serverPath; transport := stdio |} |} in
  (* const clientOptions: LanguageClientOptions = { ... } *)
  watcher ← call (CreateFileSystemWatcher "**/.clientrc");
  let clientOptions :=
    {| documentSelector := [ {| scheme := "file"; language := ".luau" |} ];
       synchronize := {| fileEvents := watcher |} |} in
  (* client = new LanguageClient(...) *)
  c ← call (NewLanguageClient "rblxReactLSP" "RBLX React LSP"
               serverOptions clientOptions);
  assignClient c;;
  (* client.start() *)
  client ← derefClient;
  call (ClientStart client);;
  mret tt.

(** The result type [Thenable<void> | undefined] is [option Promise],
    with [None] for [undefined].  [!client] holds exactly when [client]
    is undefined, a client object being truthy. *)
Definition deactivate : Script World (option Promise) :=
  client ← readClient;
  match client with
  | None => mret None                     (* if (!client) return undefined *)
  | Some client =>                        (* return client.stop() *)
      p ← call (ClientStop client); mret (Some p)
  end.
End Extension.
End VscodeExtension.

(** *** [rblx-react-lsp/src/extension.ts] *)

Module RblxReactLsp.
Definition ver : string := "V3".

Section Extension.
Context {World : Type}.

Definition activate (context : ExtensionContext) : Script World unit :=
  (* const serverPath = context.asAbsolutePath(path.join(...)) *)
  rel ← call (PathJoin [".."; "lsp-server"; "target"; "debug"; "React_LSP.exe"]);
  serverPath ← call (AsAbsolutePath context rel);
  (* const serverOpts: ServerOptions = { run: ..., debug: ... } *)
  let serverOpts :=
    {| run := {| command := serverPath; transport := stdio |};
       debug := {| command := serverPath; transport := stdio |} |} in
  (* const clientOpts: LanguageClientOptions = { ... } *)
  watcher ← call (CreateFileSystemWatcher "**/.clientrc");
  let clientOpts :=
    {| documentSelector := [ {| scheme := "file"; language := "lua" |} ];
       synchronize := {| fileEvents := watcher |} |} in
  (* console.log(`Server ${ver} starting...`) *)
  call (ConsoleLog ("Server " +:+ ver +:+ " starting..."));;
  (* client = new LanguageClient(...) *)
  c ← call (NewLanguageClient "rblxReactLSP" "RBLX React LSP"
               serverOpts clientOpts);
  assignClient c;;
  (* client.start().then(() => { console.log(`Server ${ver} started!`) }) *)
  client ← derefClient;
  p ← call (ClientStart client);
  call (PromiseThen p (LogCallback ("Server " +:+ ver +:+ " started!")));;
  mret tt.

Definition deactivate : Script World (option Promise) :=
  client ← readClient;
  match client with
  | None => mret None                     (* if (!client) return undefined *)
  | Some client =>                        (* return client.stop() *)
      p ← call (ClientStop client); mret (Some p)
  end.
End Extension.
End RblxReactLsp.

(** *** Statements about the two modules *)

(** [activate] constructs the language client for the server file [file]
    and the language [language_id]: whenever it gets as far as
    [new LanguageClient(...)], it does so once, with the two fixed names,
    with [run] and [debug] on stdio at the path the host resolved for
    [../lsp-server/target/debug/file], with the one-entry selector for
    [language_id] on scheme [file], and with the watcher the host created
    for [**/.clientrc]; otherwise a host call threw. *)
Definition constructs_client_for {World}
    (activate : ExtensionContext -> Script World unit)
    (file language_id : string) : Prop :=
  forall (h : Handler World) (context : ExtensionContext) (rt : Runtime World),
    let (r, rt') := activate context h rt in
    match omap constructed (since rt rt') with
    | [] => exists e, r = Throw e
    | [(i, n, so, co)] =>
        i = "rblxReactLSP" /\ n = "RBLX React LSP"
        /\ exists rel w1 serverPath w2 watcher w3,
            h _ (PathJoin [".."; "lsp-server"; "target"; "debug"; file]) (world rt)
              = (Normal rel, w1)
            /\ h _ (AsAbsolutePath context rel) w1 = (Normal serverPath, w2)
            /\ h _ (CreateFileSystemWatcher "**/.clientrc") w2 = (Normal watcher, w3)
            /\ so = {| run := {| command := serverPath; transport := stdio |};
                       debug := {| command := serverPath; transport := stdio |} |}
            /\ co = {| documentSelector :=
                         [ {| scheme := "file"; language := language_id |} ];
                       synchronize := {| fileEvents := watcher |} |}
    | _ => False
    end.

(** An execution of [deactivate] forwards to [stop()]: the one thing it
    does is to call [stop] on a client. *)
Definition forwards_stop {World} (deactivate : Script World (option Promise))
    (h : Handler World) (rt : Runtime World) : Prop :=
  exists c, omap stopped (since rt (deactivate h rt).2) = [c].

(** An execution of [activate] handles no failure: if no call threw it
    completes normally having called [start] on the client it assigned;
    otherwise exactly one call threw, it was the last call made, and
    [activate] ends with that very throw. *)
Definition forwards_start_unhandled {World}
    (activate : ExtensionContext -> Script World unit)
    (h : Handler World) (context : ExtensionContext) (rt : Runtime World) : Prop :=
  let (r, rt') := activate context h rt in
  match r with
  | Normal _ =>
      omap thrown_by (since rt rt') = []
      /\ Some <$> omap started (since rt rt') = [client rt']
  | Throw e =>
      omap thrown_by (since rt rt') = [e]
      /\ thrown_by <$> last (since rt rt') = Some (Some e)
  end.

(** An execution of [deactivate] either takes the guard (no client
    assigned: nothing is called, [undefined] is returned) or forwards to
    [stop()] on the assigned client and completes as that call does. *)
Definition guards_or_forwards_stop {World}
    (deactivate : Script World (option Promise))
    (h : Handler World) (rt : Runtime World) : Prop :=
  let (r, rt') := deactivate h rt in
  match client rt with
  | None => r = Normal None /\ since rt rt' = []
  | Some c =>
      exists a, since rt rt' = [Did (ClientStop c) a] /\ r = returned Some a
  end.

(** The log tells what the host answered: the calls of [l] are made one
    after the other, the first in host state [w], each completes as the
    host [h] says, and the host ends in state [w']. *)
Fixpoint replays {World} (h : Handler World) (w : World) (l : list Event)
    (w' : World) : Prop :=
  match l with
  | [] => w' = w
  | Did c r :: l' => (h _ c w).1 = r /\ replays h (h _ c w).2 l' w'
  end.

(** The call of an event, ending in a throw of [e] instead. *)
Definition failing (e : JsError) (ev : Event) : Event :=
  match ev with Did c _ => Did c (Throw e) end.

(** *** The life of a loaded module

    The editor calls the two exported functions of a module any number
    of times; the module-level [client] lives on between the calls, also
    after a call that threw. *)

(** The client a [new LanguageClient(...)] of the log returned. *)
Definition created (e : Event) : option LanguageClient :=
  match e with
  | Did c r =>
      match c in Call R return Completion R -> option LanguageClient with
      | NewLanguageClient _ _ _ _ =>
          fun r => match r with Normal x => Some x | Throw _ => None end
      | _ => fun _ => None
      end r
  end.

(** The messages given to [console.log] and the callbacks given to
    [then] in a log. *)
Definition logged (e : Event) : option string :=
  match e with Did (ConsoleLog m) _ => Some m | Did _ _ => None end.

Definition registered (e : Event) : option Callback :=
  match e with Did (PromiseThen _ k) _ => Some k | Did _ _ => None end.

(** The promise a [start()] of the log returned. *)
Definition start_returned (e : Event) : option Promise :=
  match e with
  | Did c r =>
      match c in Call R return Completion R -> option Promise with
      | ClientStart _ =>
          fun r => match r with Normal p => Some p | Throw _ => None end
      | _ => fun _ => None
      end r
  end.

(** The client constructed last along a log; [cur] if none was. *)
Definition latest (cur : option LanguageClient) (l : list Event)
  : option LanguageClient :=
  fold_left (fun cur e => match created e with Some c => Some c | None => cur end)
    l cur.

(** Every [start()] and every [stop()] of the log is called on the client
    constructed last before it ([cur] at the beginning). *)
Fixpoint targets_latest (cur : option LanguageClient) (l : list Event) : Prop :=
  match l with
  | [] => True
  | e :: l' =>
      match started e, stopped e with
      | Some c, _ => cur = Some c
      | None, Some c => cur = Some c
      | None, None => True
      end
      /\ targets_latest (latest cur [e]) l'
  end.

(** What the editor may call. *)
Inductive Entry :=
| Activate (context : ExtensionContext)
| Deactivate.

(** A front-end is its two exported functions. *)
Record Extension (World : Type) :=
  { ext_activate : ExtensionContext -> Script World unit;
    ext_deactivate : Script World (option Promise) }.
Arguments ext_activate {World} _.
Arguments ext_deactivate {World} _.

Definition vscode_extension {World} : Extension World :=
  {| ext_activate := VscodeExtension.activate;
     ext_deactivate := VscodeExtension.deactivate |}.

Definition rblx_react_lsp {World} : Extension World :=
  {| ext_activate := RblxReactLsp.activate;
     ext_deactivate := RblxReactLsp.deactivate |}.

(** One call from the editor: its completion goes back to the editor,
    the module state stays. *)
Definition enter {World} (x : Extension World) (h : Handler World)
    (rt : Runtime World) (e : Entry) : Runtime World :=
  match e with
  | Activate context => (ext_activate x context h rt).2
  | Deactivate => (ext_deactivate x h rt).2
  end.

(** A sequence of calls from the editor. *)
Definition lifecycle {World} (x : Extension World) (h : Handler World)
    (es : list Entry) (rt : Runtime World) : Runtime World :=
  fold_left (enter x h) es rt.

(** What one call from the editor does to a module: it adds [l] to the
    log, leaves in [client] the client constructed last, and starts and
    stops that client only. *)
Definition steps_well {World} (x : Extension World) : Prop :=
  forall (h : Handler World) (rt : Runtime World) (e : Entry),
    exists l,
      log (enter x h rt e) = log rt ++ l
      /\ client (enter x h rt e) = latest (client rt) l
      /\ targets_latest (client rt) l.

(** The two front-ends of the repository. *)
Definition front_ends {World} : list (Extension World) :=
  [vscode_extension; rblx_react_lsp].

(** *** A host to run the scripts on

    A deterministic POSIX-like host: [path.join] joins with [/],
    [asAbsolutePath] prefixes the extension directory, objects are
    numbered by a counter that is the whole state of the world, and no
    call throws. *)

Module PosixHost.
Fixpoint join (segments : list string) : string :=
  match segments with
  | [] => "."
  | [s] => s
  | s :: rest => s +:+ "/" +:+ join rest
  end.

Definition handler : Handler nat :=
  fun R c =>
    match c in Call R return nat -> Completion R * nat with
    | PathJoin segs => fun w => (Normal (join segs), w)
    | AsAbsolutePath ctx rel =>
        fun w => (Normal (extensionPath ctx +:+ "/" +:+ rel), w)
    | CreateFileSystemWatcher _ => fun w => (Normal (WatcherRef w), S w)
    | ConsoleLog _ => fun w => (Normal tt, w)
    | NewLanguageClient _ _ _ _ => fun w => (Normal (ClientRef w), S w)
    | ClientStart _ => fun w => (Normal (PromiseRef w), S w)
    | PromiseThen _ _ => fun w => (Normal (PromiseRef w), S w)
    | ClientStop _ => fun w => (Normal (PromiseRef w), S w)
    end.

(** A host on which the language-client constructor throws. *)
Definition failing : Handler nat :=
  fun R c =>
    match c in Call R return nat -> Completion R * nat with
    | NewLanguageClient _ _ _ _ =>
        fun w => (Throw (Thrown "Error: cannot create client"), w)
    | c' => handler _ c'
    end.

Definition context : ExtensionContext := {| extensionPath := "/ext" |}.
End PosixHost.

(** ** Part II: the language server the front-ends launch

    The executable started by both front-ends
    ([lsp-server/target/debug/React_LSP]) is built from code that is not
    among the sources.  Its components are modelled below from the design
    specification. *)

(** *** Tokens, spans and diagnostics *)

Module Lexer.

(** Modelled from the spec: the Token and Diagnostic data of the absent
    lsp-server.  A token has a kind out of identifier, keyword,
    operator, literal, comment, whitespace and end-of-file, to which the
    lexer contract adds the invalid kind; it has a byte-offset span and
    the line and column it starts at. *)
Inductive TokenKind :=
| Identifier | Keyword | Operator | Literal | Comment | Whitespace
| EndOfFile | Invalid.

Record Span := { span_start : nat; span_end : nat }.

Record Position := { line : nat; column : nat }.

Record Token := { kind : TokenKind; span : Span; pos : Position }.

Inductive Severity := Error | Warning | Info | Hint.

Record Diagnostic :=
  { severity : Severity;
    diag_span : Span;
    message : string;
    source : string }.

Definition is_eof (k : TokenKind) : bool :=
  match k with EndOfFile => true | _ => false end.

Definition is_invalid (k : TokenKind) : bool :=
  match k with Invalid => true | _ => false end.

(** Kinds a lexeme of the grammar may have: all but the two the driver
    itself hands out. *)
Definition is_lexeme (k : TokenKind) : bool :=
  negb (is_eof k || is_invalid k).

(** The bytes a span covers. *)
Definition slice (text : list Byte.byte) (s : Span) : list Byte.byte :=
  take (span_end s - span_start s) (drop (span_start s) text).

(** Line and column after one more byte; a line feed starts a line. *)
Definition advance1 (p : Position) (b : Byte.byte) : Position :=
  if Byte.eqb b Byte.x0a
  then {| line := S (line p); column := 0 |}
  else {| line := line p; column := S (column p) |}.

Definition advance (p : Position) (bs : list Byte.byte) : Position :=
  fold_left advance1 bs p.

Definition start_of_text : Position := {| line := 0; column := 0 |}.

Definition eof_token (offset : nat) (p : Position) : Token :=
  {| kind := EndOfFile;
     span := {| span_start := offset; span_end := offset |};
     pos := p |}.

Definition invalid_token (offset : nat) (p : Position) : Token :=
  {| kind := Invalid;
     span := {| span_start := offset; span_end := S offset |};
     pos := p |}.

Definition invalid_diagnostic (offset : nat) : Diagnostic :=
  {| severity := Error;
     diag_span := {| span_start := offset; span_end := S offset |};
     message := "unrecognized character";
     source := "lexer" |}.

(** The tokens lie one behind the other: the first starts at [from],
    each next one where the one before it ends. *)
Fixpoint abut (from : nat) (ts : list Token) : Prop :=
  match ts with
  | [] => True
  | t :: ts' =>
      span_start (span t) = from /\ abut (span_end (span t)) ts'
  end.

(** The line and column of a token are those of its first byte. *)
Definition located (text : list Byte.byte) (t : Token) : Prop :=
  pos t = advance start_of_text (take (span_start (span t)) text).

Section Lexer.
(** The lexical grammar, which the specification leaves open: given
    the rest of the input, the kind and the length in bytes of the
    lexeme it starts with, if any. *)
Variable scan : list Byte.byte -> option (TokenKind * nat).

(** A lexeme counts only if it is one: of a lexeme kind, not empty,
    and inside the input. *)
Definition recognize (input : list Byte.byte) : option (TokenKind * nat) :=
  match scan input with
  | Some (k, n) =>
      if is_lexeme k && (0 <? n) && (n <=? length input)
      then Some (k, n) else None
  | None => None
  end.

(** Modelled from the spec: the Lexer of the absent lsp-server
    (section 4.1).  From [offset] on it produces the tokens covering
    the whole rest of the input and then the end-of-file token; a byte
    that starts no lexeme becomes an invalid token of that one byte,
    with a diagnostic, and lexing goes on behind it. *)
Equations? lex_from (offset : nat) (p : Position) (input : list Byte.byte)
  : list Token * list Diagnostic by wf (length input) lt :=
  lex_from offset p [] := ([eof_token offset p], []);
  lex_from offset p (b :: rest) with recognize (b :: rest) => {
    | Some (k, n) :=
        let after := lex_from (offset + n) (advance p (take n (b :: rest)))
                       (drop (Nat.pred n) rest) in
        ({| kind := k;
            span := {| span_start := offset; span_end := offset + n |};
            pos := p |} :: after.1,
         after.2);
    | None :=
        let after := lex_from (S offset) (advance1 p b) rest in
        (invalid_token offset p :: after.1,
         invalid_diagnostic offset :: after.2) }.
Proof.
  all: cbn [length]; try rewrite length_drop; lia.
Qed.

(** Lexing a source text from a starting offset. *)
Definition lex (text : list Byte.byte) (offset : nat) : list Token * list Diagnostic :=
  lex_from offset (advance start_of_text (take offset text)) (drop offset text).

Definition tokenize (text : list Byte.byte) : list Token * list Diagnostic :=
  lex text 0.

(** A token is what the grammar makes of the text at the offset where
    the token starts: at the end of the text the end-of-file token, where
    a lexeme of kind [k] and length [n] is recognized a token of kind [k]
    over these [n] bytes, and where none is recognized an invalid token
    over the one byte met. *)
Definition justified (text : list Byte.byte) (t : Token) : Prop :=
  match drop (span_start (span t)) text with
  | [] => kind t = EndOfFile /\ span_end (span t) = span_start (span t)
  | b :: rest =>
      match recognize (b :: rest) with
      | Some (k, n) =>
          kind t = k /\ span_end (span t) = span_start (span t) + n
      | None =>
          kind t = Invalid /\ span_end (span t) = S (span_start (span t))
      end
  end.
End Lexer.

(** A small Lua-like grammar to run the lexer on: names, numbers,
    blanks and a few one-byte operators. *)
Module Sample.
Definition code (b : Byte.byte) : nat := Byte.to_nat b.

Definition is_alpha (b : Byte.byte) : bool :=
  let c := code b in
  ((65 <=? c) && (c <=? 90)) || ((97 <=? c) && (c <=? 122)) || (c =? 95).

Definition is_digit (b : Byte.byte) : bool :=
  let c := code b in (48 <=? c) && (c <=? 57).

Definition is_blank (b : Byte.byte) : bool :=
  let c := code b in (c =? 32) || (c =? 9) || (c =? 10) || (c =? 13).

Definition is_operator (b : Byte.byte) : bool :=
  let c := code b in
  (c =? 40) || (c =? 41) || (c =? 43) || (c =? 45) || (c =? 61) || (c =? 44).

Fixpoint run_length (f : Byte.byte -> bool) (input : list Byte.byte) : nat :=
  match input with
  | b :: rest => if f b then S (run_length f rest) else 0
  | [] => 0
  end.

Definition scan (input : list Byte.byte) : option (TokenKind * nat) :=
  match input with
  | [] => None
  | b :: _ =>
      if is_alpha b
      then Some (Identifier, run_length (fun c => is_alpha c || is_digit c) input)
      else if is_digit b then Some (Literal, run_length is_digit input)
      else if is_blank b then Some (Whitespace, run_length is_blank input)
      else if is_operator b then Some (Operator, 1)
      else None
  end.

Definition bytes (s : string) : list Byte.byte := String.list_byte_of_string s.
End Sample.

End Lexer.

(** *** The incremental document store *)

Module Store.

(** Modelled from the spec: the Edit of the absent lsp-server, a range
    replacement on a document's text that carries the new version
    number; the version it was made against is the base version that
    [applyEdit] compares. *)
Record Edit :=
  { range_start : nat;
    range_end : nat;
    new_text : list Byte.byte;
    base_version : nat;
    new_version : nat }.

Inductive StoreError := UnknownDocument | StaleVersion.

Section Store.
(** The store keeps trees, symbol tables and diagnostics but never
    looks into them. *)
Context {Tree SymbolTable Diagnostic : Type}.

(** Modelled from the spec: the Document of the absent lsp-server:
    URI, version, text buffer, tree, symbol table and diagnostics,
    with the mark that tree and symbol table await recomputation. *)
Record Document :=
  { uri : string;
    version : nat;
    text : list Byte.byte;
    tree : Tree;
    symbols : SymbolTable;
    diagnostics : list Diagnostic;
    pending : bool }.

(** What a document starts with before its first analysis. *)
Variable no_tree : Tree.
Variable no_symbols : SymbolTable.

(** Replace the bytes of the edit's range by its new text. *)
Definition splice (e : Edit) (t : list Byte.byte) : list Byte.byte :=
  take (range_start e) t ++ new_text e ++ drop (range_end e) t.

(** Modelled from the spec: [open] of the absent document store
    (section 4.3).  The first version is not given there; it is 0. *)
Definition open (u : string) (t : list Byte.byte) (st : gmap string Document)
  : gmap string Document * Document :=
  let d := {| uri := u; version := 0; text := t; tree := no_tree;
              symbols := no_symbols; diagnostics := []; pending := true |} in
  (<[u := d]> st, d).

(** Modelled from the spec: [applyEdit] of the absent document store
    (section 4.3): unknown uri and stale base version fail; otherwise
    the edit is spliced in, the version bumped to the one the edit
    carries, and tree and symbol table marked pending. *)
Definition applyEdit (u : string) (e : Edit) (st : gmap string Document)
  : gmap string Document * (StoreError + nat) :=
  match st !! u with
  | None => (st, inl UnknownDocument)
  | Some d =>
      if decide (base_version e = version d)
      then
        let d' := {| uri := uri d; version := new_version e;
                     text := splice e (text d); tree := tree d;
                     symbols := symbols d; diagnostics := diagnostics d;
                     pending := true |} in
        (<[u := d']> st, inr (new_version e))
      else (st, inl StaleVersion)
  end.

(** Modelled from the spec: [close] and [get] of the absent store. *)
Definition close (u : string) (st : gmap string Document) : gmap string Document :=
  delete u st.

Definition get (u : string) (st : gmap string Document) : option Document :=
  st !! u.

(** The requests a store serves, to speak about its history. *)
Inductive Op :=
| OpOpen (u : string) (t : list Byte.byte)
| OpApplyEdit (u : string) (e : Edit)
| OpClose (u : string)
| OpGet (u : string).

Definition serve (st : gmap string Document) (o : Op) : gmap string Document :=
  match o with
  | OpOpen u t => (open u t st).1
  | OpApplyEdit u e => (applyEdit u e st).1
  | OpClose u => close u st
  | OpGet _ => st
  end.

(** The store after a history of requests, starting empty. *)
Definition after (history : list Op) : gmap string Document :=
  fold_left serve history ∅.

Definition opens (u : string) (o : Op) : bool :=
  match o with
  | OpOpen u' _ => bool_decide (u' = u)
  | _ => false
  end.

(** [u] was never opened in the history. *)
Definition never_opened (u : string) (history : list Op) : Prop :=
  forallb (fun o => negb (opens u o)) history = true.
End Store.

Arguments Document : clear implicits.

(** A small store to run the operations on: trees, symbol tables and
    diagnostics are left out ([unit]). *)
Module Sample.
Definition history : list Op :=
  [OpOpen "a.lua" (String.list_byte_of_string "local x = 1"); OpClose "b.lua"].

Definition store : gmap string (Document unit unit unit) :=
  after (Diagnostic:=unit) tt tt history.

Definition a_lua : Document unit unit unit :=
  {| uri := "a.lua"; version := 0;
     text := String.list_byte_of_string "local x = 1";
     tree := tt; symbols := tt; diagnostics := []; pending := true |}.

(** An edit made against version 5, which the store never had. *)
Definition late_edit : Edit :=
  {| range_start := 6; range_end := 7;
     new_text := String.list_byte_of_string "y";
     base_version := 5; new_version := 6 |}.
End Sample.

End Store.

(** *** The protocol session *)

Module Session.

(** Modelled from the spec: the states of the Protocol Session of the
    absent lsp-server (section 4.5). *)
Inductive State := Uninitialized | Initialized | ShuttingDown | Closed.

(** The methods of section 6: lifecycle, document sync, queries. *)
Inductive Method :=
| initialize | initialized | shutdown | exit
| didOpen | didChange | didClose
| hover | completion | definition.

Inductive StateError := ServerNotInitialized | InvalidState.

Inductive Outcome := Accepted | Failed (e : StateError).

(** Modelled from the spec: the transitions of the Protocol Session
    (section 4.5).  After [exit] everything fails with [InvalidState];
    before that [exit] and [shutdown] are always accepted; [initialize]
    is accepted in [Uninitialized] only; everything else fails with
    [ServerNotInitialized] while [Uninitialized], is served while
    [Initialized], and is refused while [ShuttingDown], which still
    accepts [exit] only.  The specification names no error for a
    request refused in a state other than [Uninitialized] apart from
    [InvalidState], which is used. *)
Definition handle (s : State) (m : Method) : State * Outcome :=
  match s, m with
  | Closed, _ => (Closed, Failed InvalidState)
  | _, exit => (Closed, Accepted)
  | _, shutdown => (ShuttingDown, Accepted)
  | Uninitialized, initialize => (Initialized, Accepted)
  | Uninitialized, _ => (Uninitialized, Failed ServerNotInitialized)
  | Initialized, initialize => (Initialized, Failed InvalidState)
  | Initialized, _ => (Initialized, Accepted)
  | ShuttingDown, _ => (ShuttingDown, Failed InvalidState)
  end.

(** One handled message: the state it met, how it went, the state it
    left. *)
Record Step :=
  { before : State; method : Method; outcome : Outcome; after : State }.

(** The session over a sequence of incoming messages. *)
Fixpoint run (s : State) (ms : list Method) : list Step :=
  match ms with
  | [] => []
  | m :: rest =>
      let (s', o) := handle s m in
      {| before := s; method := m; outcome := o; after := s' |} :: run s' rest
  end.

(** Position of a state on the line
    Uninitialized → Initialized → ShuttingDown → Closed. *)
Definition rank (s : State) : nat :=
  match s with
  | Uninitialized => 0 | Initialized => 1 | ShuttingDown => 2 | Closed => 3
  end.

Definition is_accepted (o : Outcome) : bool :=
  match o with Accepted => true | Failed _ => false end.

Definition accepted_initialize (st : Step) : bool :=
  match method st with
  | initialize => is_accepted (outcome st)
  | _ => false
  end.

(** The steps form one session: each starts in the state the one before
    it left, the first in [s]. *)
Fixpoint linked (s : State) (steps : list Step) : Prop :=
  match steps with
  | [] => True
  | st :: rest => before st = s /\ linked (after st) rest
  end.

(** The rules of section 4.5 for one step, state by state: after [exit]
    everything fails with [InvalidState]; before that [exit] is accepted
    and closes the session, and [shutdown] is accepted and moves it to
    [ShuttingDown]; [Uninitialized] accepts [initialize], which moves it
    to [Initialized], and fails everything else with
    [ServerNotInitialized]; [Initialized] serves the document and query
    methods and stays, and accepts no second [initialize];
    [ShuttingDown] refuses everything but [exit] and [shutdown]. *)
Definition obeys (st : Step) : Prop :=
  match before st, method st with
  | Closed, _ => outcome st = Failed InvalidState /\ after st = Closed
  | _, exit => outcome st = Accepted /\ after st = Closed
  | _, shutdown => outcome st = Accepted /\ after st = ShuttingDown
  | Uninitialized, initialize => outcome st = Accepted /\ after st = Initialized
  | Uninitialized, _ =>
      outcome st = Failed ServerNotInitialized /\ after st = Uninitialized
  | Initialized, initialize =>
      outcome st = Failed InvalidState /\ after st = Initialized
  | Initialized, _ => outcome st = Accepted /\ after st = Initialized
  | ShuttingDown, _ => outcome st = Failed InvalidState /\ after st = ShuttingDown
  end.

(** The messages that take a session out of [Uninitialized]. *)
Definition decisive (m : Method) : bool :=
  match m with
  | initialize | shutdown | exit => true
  | _ => false
  end.

End Session.

(** * Properties *)

(** ** The front-ends *)

Section FrontEnds.
Context {World : Type}.
Implicit Types (h : Handler World) (rt : Runtime World).

Lemma since_app rt (w : World) c (l : list Event) :
  since rt {| client := c; world := w; log := log rt ++ l |} = l.
Proof. unfold since. cbn. by rewrite drop_app_length. Qed.

End FrontEnds.

(** Unfold the script combinators. *)
Ltac script_unfold :=
  unfold mbind, mret, Script_bind, Script_ret, bind, call, ret, assignClient,
    derefClient, readClient;
  cbn [fst snd world log client].

(** Ask the host [h] for the answer to the next call in the goal. *)
Ltac host_step h :=
  match goal with
  | |- context [h ?R ?c ?w] =>
      let r := fresh "r" in
      let e := fresh "e" in
      let w' := fresh "w" in
      let E := fresh "E" in
      destruct (h R c w) as [[r|e] w'] eqn:E;
      cbn [fst snd world log client returned] in *
  end.

(** C4.  In either front-end, [deactivate] returns [undefined] without
    calling [stop] (log and world untouched) when the module-level
    [client] was never assigned, and otherwise calls [client.stop()] once
    and completes exactly as that call does. *)
Theorem deactivate_undefined_or_stop :
  forall (World : Type) (h : Handler World) (w : World) (l : list Event),
    let unassigned := {| client := None; world := w; log := l |} in
    VscodeExtension.deactivate h unassigned = (Normal None, unassigned)
    /\ RblxReactLsp.deactivate h unassigned = (Normal None, unassigned)
    /\ forall c : LanguageClient,
        let r := h _ (ClientStop c) w in
        let stopped_rt :=
          {| client := Some c; world := r.2;
             log := l ++ [Did (ClientStop c) r.1] |} in
        VscodeExtension.deactivate h {| client := Some c; world := w; log := l |}
          = (returned Some r.1, stopped_rt)
        /\ RblxReactLsp.deactivate h {| client := Some c; world := w; log := l |}
          = (returned Some r.1, stopped_rt).
Proof.
  intros World h w l unassigned.
  split; [reflexivity | split; [reflexivity |]].
  intros c r stopped_rt. subst r stopped_rt.
  unfold VscodeExtension.deactivate, RblxReactLsp.deactivate.
  script_unfold.
  destruct (h Promise (ClientStop c) w) as [[p|e] w'] eqn:E; cbn; split; reflexivity.
Qed.

(** The log after a run, as the old log followed by what was added. *)
Ltac log_normalize :=
  unfold since; cbn [fst snd world log client];
  rewrite <- ?app_assoc; cbn [app];
  rewrite ?drop_app_length.

(** Use the recorded answers of the host [h] in the goal. *)
Ltac host_answers h :=
  repeat match goal with
         | E : h _ _ _ = _ |- _ => rewrite E; clear E; cbn [fst snd]
         end.

(** The values a call that was never made would have returned do not
    matter. *)
Ltac any_value :=
  first [ exact "" | exact (WatcherRef 0) | exact (ClientRef 0)
        | exact (PromiseRef 0) | exact tt ].

(** After [activate] ended in a throw: find the call of the session that
    threw. *)
Ltac thrown_at k :=
  exists k; eexists; split; [reflexivity |];
  rewrite <- ?app_assoc; simpl; reflexivity.

Ltac thrown_at_some_call :=
  first [ thrown_at 0 | thrown_at 1 | thrown_at 2 | thrown_at 3 | thrown_at 4
        | thrown_at 5 | thrown_at 6 ].

(** C1.  For every host, activation context and module state, [activate]
    of either front-end does what the host's answers make of one fixed
    session of calls, in program order: resolve the path of the server
    executable ([path.join], then [context.asAbsolutePath]), create the
    file-system watcher, construct the language client with the document
    selector and the watcher, start it (rblx-react-lsp also prints a
    message and registers a callback).  The log holds exactly the calls
    made, each with the completion the host gave.  If every call
    returned, [activate] completes, the log has gained the whole session,
    [client] is the constructed client, and [deactivate] then calls
    [stop] on that very client.  [activate] ends in a throw only if a
    call of the session threw: then the log has gained the session up to
    that call, which is the last.  No other step (parsing, analysis,
    diagnostics) exists. *)
Theorem front_ends_start_and_stop_a_session :
  forall (World : Type) (h : Handler World) (context : ExtensionContext)
         (rt : Runtime World),
    (let (r, rt') := VscodeExtension.activate context h rt in
     replays h (world rt) (since rt rt') (world rt')
     /\ exists rel serverPath watcher c p,
         let session :=
           [ Did (PathJoin [".."; "lsp-server"; "target"; "debug"; "React_lSP"])
               (Normal rel);
             Did (AsAbsolutePath context rel) (Normal serverPath);
             Did (CreateFileSystemWatcher "**/.clientrc") (Normal watcher);
             Did (NewLanguageClient "rblxReactLSP" "RBLX React LSP"
                    {| run := {| command := serverPath; transport := stdio |};
                       debug := {| command := serverPath; transport := stdio |} |}
                    {| documentSelector :=
                         [ {| scheme := "file"; language := ".luau" |} ];
                       synchronize := {| fileEvents := watcher |} |})
               (Normal c);
             Did (ClientStart c) (Normal p) ] in
         match r with
         | Normal _ =>
             log rt' = log rt ++ session
             /\ client rt' = Some c
             /\ omap stopped (since rt' (VscodeExtension.deactivate h rt').2) = [c]
         | Throw e =>
             exists k ev,
               session !! k = Some ev
               /\ log rt' = log rt ++ take k session ++ [failing e ev]
         end)
    /\
    (let (r, rt') := RblxReactLsp.activate context h rt in
     replays h (world rt) (since rt rt') (world rt')
     /\ exists rel serverPath watcher c p q,
         let session :=
           [ Did (PathJoin [".."; "lsp-server"; "target"; "debug"; "React_LSP.exe"])
               (Normal rel);
             Did (AsAbsolutePath context rel) (Normal serverPath);
             Did (CreateFileSystemWatcher "**/.clientrc") (Normal watcher);
             Did (ConsoleLog "Server V3 starting...") (Normal tt);
             Did (NewLanguageClient "rblxReactLSP" "RBLX React LSP"
                    {| run := {| command := serverPath; transport := stdio |};
                       debug := {| command := serverPath; transport := stdio |} |}
                    {| documentSelector :=
                         [ {| scheme := "file"; language := "lua" |} ];
                       synchronize := {| fileEvents := watcher |} |})
               (Normal c);
             Did (ClientStart c) (Normal p);
             Did (PromiseThen p (LogCallback "Server V3 started!")) (Normal q) ] in
         match r with
         | Normal _ =>
             log rt' = log rt ++ session
             /\ client rt' = Some c
             /\ omap stopped (since rt' (RblxReactLsp.deactivate h rt').2) = [c]
         | Throw e =>
             exists k ev,
               session !! k = Some ev
               /\ log rt' = log rt ++ take k session ++ [failing e ev]
         end).
Proof.
  intros World h context rt. split.
  - unfold VscodeExtension.activate. script_unfold.
    repeat host_step h;
      (split;
       [ log_normalize; cbn [replays]; host_answers h; repeat split |]);
      do 5 eexists; cbn zeta.
    all: try thrown_at_some_call.
    split; [log_normalize; reflexivity |].
    split; [reflexivity |].
    unfold VscodeExtension.deactivate. script_unfold.
    host_step h; unfold since; cbn [fst snd world log client];
      rewrite drop_app_length; reflexivity.
    Unshelve. all: any_value.
  - unfold RblxReactLsp.activate. script_unfold.
    repeat host_step h;
      (split;
       [ log_normalize; cbn [replays]; host_answers h; repeat split |]);
      do 6 eexists; cbn zeta.
    all: repeat match goal with u : unit |- _ => destruct u end.
    all: try thrown_at_some_call.
    split; [log_normalize; reflexivity |].
    split; [reflexivity |].
    unfold RblxReactLsp.deactivate. script_unfold.
    host_step h; unfold since; cbn [fst snd world log client];
      rewrite drop_app_length; reflexivity.
    Unshelve. all: any_value.
Qed.

(** C1 on the POSIX host, where every call returns: both front-ends
    complete their activation with client 1 constructed and started, and
    deactivation stops client 1. *)
Lemma front_ends_start_and_stop_a_session_witness :
  let a := VscodeExtension.activate PosixHost.context PosixHost.handler (loaded 0) in
  let b := RblxReactLsp.activate PosixHost.context PosixHost.handler (loaded 0) in
  (a.1 = Normal tt /\ client a.2 = Some (ClientRef 1)
   /\ omap started (log a.2) = [ClientRef 1]
   /\ omap stopped (log (VscodeExtension.deactivate PosixHost.handler a.2).2)
      = [ClientRef 1])
  /\ (b.1 = Normal tt /\ client b.2 = Some (ClientRef 1)
      /\ omap started (log b.2) = [ClientRef 1]
      /\ omap stopped (log (RblxReactLsp.deactivate PosixHost.handler b.2).2)
         = [ClientRef 1])
  /\ replays PosixHost.handler 0 (log a.2) (world a.2)
  /\ replays PosixHost.handler 0 (log b.2) (world b.2).
Proof.
  intros a b.
  destruct (front_ends_start_and_stop_a_session nat PosixHost.handler
              PosixHost.context (loaded 0)) as [Ha Hb].
  hnf in Ha, Hb. destruct Ha as [Ha _], Hb as [Hb _].
  split; [repeat split; reflexivity |].
  split; [repeat split; reflexivity |].
  split; [exact Ha | exact Hb].
Defined.

(** A session on the POSIX host: both front-ends activate without a
    throw, and deactivation stops the client that activation started. *)
Example posix_session :
  let a := VscodeExtension.activate PosixHost.context PosixHost.handler (loaded 0) in
  let b := RblxReactLsp.activate PosixHost.context PosixHost.handler (loaded 0) in
  a.1 = Normal tt /\ b.1 = Normal tt
  /\ api_of <$> log (VscodeExtension.deactivate PosixHost.handler a.2).2
     = [path_join; context_asAbsolutePath; workspace_createFileSystemWatcher;
        new_LanguageClient; client_start; client_stop]
  /\ api_of <$> log (RblxReactLsp.deactivate PosixHost.handler b.2).2
     = [path_join; context_asAbsolutePath; workspace_createFileSystemWatcher;
        console_log; new_LanguageClient; client_start; promise_then; client_stop]
  /\ omap started (log a.2) = omap stopped (log (VscodeExtension.deactivate PosixHost.handler a.2).2)
  /\ omap started (log b.2) = omap stopped (log (RblxReactLsp.deactivate PosixHost.handler b.2).2).
Proof. repeat split; reflexivity. Qed.

(** C2, as stated, fails: on the POSIX host, with the extension installed
    at [/ext], vscode-extension constructs its client for
    [.../React_lSP] and language [.luau], rblx-react-lsp for
    [.../React_LSP.exe] and language [lua]; the server paths differ and
    so do the document selectors. *)
Lemma front_ends_construct_different_clients :
  let a := (VscodeExtension.activate PosixHost.context PosixHost.handler (loaded 0)).2 in
  let b := (RblxReactLsp.activate PosixHost.context PosixHost.handler (loaded 0)).2 in
  (command ∘ run ∘ snd ∘ fst) <$> omap constructed (log a)
    = ["/ext/../lsp-server/target/debug/React_lSP"]
  /\ (command ∘ run ∘ snd ∘ fst) <$> omap constructed (log b)
    = ["/ext/../lsp-server/target/debug/React_LSP.exe"]
  /\ (documentSelector ∘ snd) <$> omap constructed (log a)
    = [[ {| scheme := "file"; language := ".luau" |} ]]
  /\ (documentSelector ∘ snd) <$> omap constructed (log b)
    = [[ {| scheme := "file"; language := "lua" |} ]]
  /\ omap constructed (log a) <> omap constructed (log b).
Proof.
  repeat split; try reflexivity.
  vm_compute. discriminate.
Qed.

(** C2, amended.  The two [activate] functions construct the language
    client in the same way up to two strings: the file name of the server
    executable ([React_lSP] in vscode-extension, [React_LSP.exe] in
    rblx-react-lsp) and the language of the document selector ([.luau]
    and [lua]).  Id, name, transport, scheme, the directory of the
    server and the watched glob are the same. *)
Theorem front_ends_construct_alike_up_to_file_and_language :
  forall World : Type,
    constructs_client_for (World:=World) VscodeExtension.activate "React_lSP" ".luau"
    /\ constructs_client_for (World:=World) RblxReactLsp.activate "React_LSP.exe" "lua".
Proof.
  intros World. split; intros h context rt.
  - unfold VscodeExtension.activate. script_unfold.
    repeat host_step h; log_normalize; cbn; eauto 20.
  - unfold RblxReactLsp.activate. script_unfold.
    repeat host_step h; log_normalize; cbn; eauto 20.
Qed.

(** C3, as stated, fails: [deactivate] has a branch that forwards
    nothing.  On a freshly loaded module, and equally after an activation
    that failed in the client constructor, [client] is undefined and
    [deactivate] returns [undefined] without calling [stop]. *)
Lemma deactivate_unassigned_forwards_nothing :
  let failed :=
    (VscodeExtension.activate PosixHost.context PosixHost.failing (loaded 0)).2 in
  ~ forwards_stop VscodeExtension.deactivate PosixHost.handler (loaded 0)
  /\ ~ forwards_stop RblxReactLsp.deactivate PosixHost.handler (loaded 0)
  /\ VscodeExtension.deactivate PosixHost.handler (loaded 0) = (Normal None, loaded 0)
  /\ RblxReactLsp.deactivate PosixHost.handler (loaded 0) = (Normal None, loaded 0)
  /\ client failed = None
  /\ VscodeExtension.deactivate PosixHost.failing failed = (Normal None, failed).
Proof.
  repeat split; try reflexivity; intros [c H]; vm_compute in H; discriminate.
Qed.

(** C3, amended.  The glue handles no failure, and its one branch is the
    guard of [deactivate].  [activate] is straight-line code: a throw of
    any host call ends it at that call with that throw, and otherwise it
    has called [start()] on the client it assigned.  [deactivate], when
    [client] is assigned, forwards to [client.stop()] and completes as
    that call does; when [client] is undefined it takes the guard and
    returns [undefined] without any call. *)
Theorem glue_forwards_start_and_stop_behind_one_guard :
  forall (World : Type) (h : Handler World) (context : ExtensionContext)
         (rt : Runtime World),
    forwards_start_unhandled VscodeExtension.activate h context rt
    /\ forwards_start_unhandled RblxReactLsp.activate h context rt
    /\ guards_or_forwards_stop VscodeExtension.deactivate h rt
    /\ guards_or_forwards_stop RblxReactLsp.deactivate h rt.
Proof.
  intros World h context rt. repeat split.
  - unfold forwards_start_unhandled, VscodeExtension.activate. script_unfold.
    repeat host_step h; log_normalize; split; reflexivity.
  - unfold forwards_start_unhandled, RblxReactLsp.activate. script_unfold.
    repeat host_step h; log_normalize; split; reflexivity.
  - unfold guards_or_forwards_stop, VscodeExtension.deactivate. script_unfold.
    destruct (client rt) as [c|]; cbn.
    + host_step h; log_normalize; eexists; split; reflexivity.
    + split; [reflexivity |]. unfold since. apply drop_all.
  - unfold guards_or_forwards_stop, RblxReactLsp.deactivate. script_unfold.
    destruct (client rt) as [c|]; cbn.
    + host_step h; log_normalize; eexists; split; reflexivity.
    + split; [reflexivity |]. unfold since. apply drop_all.
Qed.

(** ** The protocol session *)

Section SessionFacts.
Import Session.

Lemma run_steps_length s ms : length (run s ms) = length ms.
Proof.
  revert s. induction ms as [|m ms IH]; intros s; cbn; [reflexivity |].
  destruct (handle s m). cbn. by rewrite IH.
Qed.

(** The state a session is in after a sequence of messages. *)
Lemma run_app s ms1 ms2 :
  run s (ms1 ++ ms2) = run s ms1 ++ run (fold_left (fun s m => (handle s m).1) ms1 s) ms2.
Proof.
  revert s. induction ms1 as [|m ms1 IH]; intros s; cbn; [reflexivity |].
  destruct (handle s m) as [s' o] eqn:E. cbn. by rewrite IH.
Qed.

Lemma run_linked s ms : linked s (run s ms).
Proof.
  revert s. induction ms as [|m ms IH]; intros s; cbn; [exact I |].
  destruct (handle s m) as [s' o]. cbn. split; [reflexivity | apply IH].
Qed.

Lemma handle_forward s m : rank s <= rank (handle s m).1.
Proof. destruct s, m; cbn; lia. Qed.

Lemma run_forward s ms :
  Forall (fun st => rank (before st) <= rank (after st)) (run s ms).
Proof.
  revert s. induction ms as [|m ms IH]; intros s; cbn; [constructor |].
  pose proof (handle_forward s m) as Hf.
  destruct (handle s m) as [s' o]. constructor; [exact Hf | apply IH].
Qed.

Lemma run_obeys s ms : Forall obeys (run s ms).
Proof.
  revert s. induction ms as [|m ms IH]; intros s; cbn; [constructor |].
  destruct (handle s m) as [s' o] eqn:E. constructor; [| apply IH].
  destruct s, m; cbn in E; injection E as <- <-; cbn; auto.
Qed.

(** Only a session still [Uninitialized] has an [initialize] to accept. *)
Lemma run_initialize_once s ms :
  length (List.filter accepted_initialize (run s ms))
  <= match s with Uninitialized => 1 | _ => 0 end.
Proof.
  revert s. induction ms as [|m ms IH]; intros s; cbn.
  - destruct s; lia.
  - destruct (handle s m) as [s' o] eqn:E. specialize (IH s').
    destruct s, m; cbn in E; injection E as <- <-;
      cbn in *; lia.
Qed.

Lemma run_closed ms :
  Forall (fun st => outcome st = Failed InvalidState) (run Closed ms).
Proof.
  induction ms as [|m ms IH]; cbn; constructor; [reflexivity | exact IH].
Qed.

Lemma handle_exit s : (handle s exit).1 = Closed.
Proof. by destruct s. Qed.

(** One step per message, in the order of the messages. *)
Lemma run_methods s ms : method <$> run s ms = ms.
Proof.
  revert s. induction ms as [|m ms IH]; intros s; cbn; [reflexivity |].
  destruct (handle s m) as [s' o]. cbn. by rewrite IH.
Qed.

Lemma run_closed_stays ms :
  Forall (fun st => outcome st = Failed InvalidState /\ after st = Closed)
    (run Closed ms).
Proof.
  induction ms as [|m ms IH]; cbn; constructor; [by split | exact IH].
Qed.

Lemma run_initialize_never s ms :
  s <> Uninitialized -> length (List.filter accepted_initialize (run s ms)) = 0.
Proof.
  intros Hs. pose proof (run_initialize_once s ms) as H.
  destruct s; [contradiction | lia | lia | lia].
Qed.

(** The session accepts one [initialize] exactly when the first decisive
    message is [initialize], and none otherwise. *)
Lemma run_initialize_count ms :
  length (List.filter accepted_initialize (run Uninitialized ms))
  = match List.find decisive ms with Some initialize => 1 | _ => 0 end.
Proof.
  induction ms as [|m ms IH]; [reflexivity |].
  destruct m; cbn [run handle List.find decisive List.filter accepted_initialize
                     method outcome is_accepted length];
    try exact IH.
  - by rewrite run_initialize_never.
  - by apply run_initialize_never.
  - by apply run_initialize_never.
Qed.

End SessionFacts.

(** C5.  For every sequence of incoming messages the session started in
    [Uninitialized] handles each message, in order, by the rules of the
    state machine: it moves only forward along
    Uninitialized → Initialized → ShuttingDown → Closed; an [initialize]
    met in [Uninitialized] is accepted and leaves that state, and it is
    the only one ever accepted: over the whole sequence exactly one
    [initialize] is accepted if the first of [initialize], [shutdown],
    [exit] to arrive is [initialize], and none otherwise; any other
    message met in [Uninitialized] fails with [ServerNotInitialized],
    except [shutdown] and [exit], which are accepted; and every message
    behind an [exit] fails with [InvalidState] and leaves the session
    [Closed]. *)
Theorem session_follows_state_machine :
  forall ms pre post : list Session.Method,
    let steps := Session.run Session.Uninitialized ms in
    Session.method <$> steps = ms
    /\ Session.linked Session.Uninitialized steps
    /\ Forall Session.obeys steps
    /\ Forall (fun st => Session.rank (Session.before st)
                          <= Session.rank (Session.after st)) steps
    /\ length (List.filter Session.accepted_initialize steps)
       = match List.find Session.decisive ms with
         | Some Session.initialize => 1
         | _ => 0
         end
    /\ Forall (fun st => Session.outcome st = Session.Failed Session.InvalidState
                         /\ Session.after st = Session.Closed)
         (drop (S (length pre))
            (Session.run Session.Uninitialized (pre ++ Session.exit :: post))).
Proof.
  intros ms pre post steps. subst steps.
  split; [apply run_methods |].
  split; [apply run_linked |].
  split; [apply run_obeys |].
  split; [apply run_forward |].
  split; [apply run_initialize_count |].
  rewrite run_app. rewrite drop_app_ge by (rewrite run_steps_length; lia).
  rewrite run_steps_length. replace (S (length pre) - length pre) with 1 by lia.
  cbn [Session.run].
  pose proof (handle_exit (fold_left (fun s m => (Session.handle s m).1) pre
                             Session.Uninitialized)) as Hx.
  destruct (Session.handle _ Session.exit) as [s' o]. cbn in Hx. subst s'.
  cbn. apply run_closed_stays.
Qed.

(** ** The document store *)

Section StoreFacts.
Import Store.
Context {Tree SymbolTable Diagnostic : Type}.
Variables (no_tree : Tree) (no_symbols : SymbolTable).
Abbreviation Doc := (Document Tree SymbolTable Diagnostic).

(** Serving a request that does not open [u] cannot bring [u] into the
    store. *)
Lemma serve_keeps_unknown (st : gmap string Doc) (u : string) (o : Op) :
  st !! u = None -> opens u o = false ->
  serve no_tree no_symbols st o !! u = None.
Proof.
  intros Hu Ho. destruct o as [u' t | u' e | u' | u']; cbn in *.
  - apply bool_decide_eq_false in Ho. by rewrite lookup_insert_ne.
  - unfold applyEdit. destruct (st !! u') as [d|] eqn:Hd; [| exact Hu].
    destruct (decide (base_version e = version d)); [| exact Hu].
    cbn. rewrite lookup_insert_ne; [exact Hu | congruence].
  - unfold close. rewrite lookup_delete_None. by right.
  - exact Hu.
Qed.

Lemma fold_serve_keeps_unknown (history : list Op) (st : gmap string Doc) (u : string) :
  st !! u = None -> never_opened u history ->
  fold_left (serve no_tree no_symbols) history st !! u = None.
Proof.
  revert st. unfold never_opened.
  induction history as [|o history IH]; intros st Hu Hn; cbn in *; [exact Hu |].
  apply andb_prop in Hn as [Ho Hn]. apply negb_true_iff in Ho.
  apply IH; [by apply serve_keeps_unknown | exact Hn].
Qed.

Lemma applyEdit_unknown (st : gmap string Doc) (u : string) (e : Edit) :
  st !! u = None -> applyEdit u e st = (st, inl UnknownDocument).
Proof. intros Hu. unfold applyEdit. by rewrite Hu. Qed.

Lemma applyEdit_stale (st : gmap string Doc) (u : string) (e : Edit) (d : Doc) :
  st !! u = Some d -> base_version e <> version d ->
  applyEdit u e st = (st, inl StaleVersion).
Proof.
  intros Hu Hv. unfold applyEdit. rewrite Hu.
  destruct (decide (base_version e = version d)); [contradiction | reflexivity].
Qed.

End StoreFacts.

(** C6.  [applyEdit] on a uri that no request of the store's history
    opened fails with [UnknownDocument]; on an opened document, an edit
    whose base version is not the stored version fails with
    [StaleVersion], and then the store, and with it the stored document
    (text, version, tree, symbol table), is as it was. *)
Theorem applyEdit_unknown_or_stale :
  forall (Tree SymbolTable Diagnostic : Type) (no_tree : Tree)
         (no_symbols : SymbolTable) (e : Store.Edit),
    (forall (history : list Store.Op) (u : string),
        Store.never_opened u history ->
        Store.applyEdit u e (Store.after (Diagnostic:=Diagnostic) no_tree no_symbols history)
        = (Store.after no_tree no_symbols history, inl Store.UnknownDocument))
    /\ (forall (st : gmap string (Store.Document Tree SymbolTable Diagnostic))
               (u : string) (d : Store.Document Tree SymbolTable Diagnostic),
        st !! u = Some d ->
        Store.base_version e <> Store.version d ->
        Store.applyEdit u e st = (st, inl Store.StaleVersion)
        /\ Store.get u (Store.applyEdit u e st).1 = Some d).
Proof.
  intros Tree SymbolTable Diagnostic no_tree no_symbols e. split.
  - intros history u Hn. apply applyEdit_unknown.
    apply fold_serve_keeps_unknown; [apply lookup_empty | exact Hn].
  - intros st u d Hu Hv.
    rewrite (applyEdit_stale st u e d Hu Hv). split; [reflexivity | exact Hu].
Qed.

(** The two failures on the sample store: [c.lua] was never opened, and
    [a.lua] is stored at version 0 while the edit was made against 5. *)
Lemma applyEdit_unknown_or_stale_witness :
  Store.never_opened "c.lua" Store.Sample.history
  /\ Store.Sample.store !! "a.lua" = Some Store.Sample.a_lua
  /\ Store.applyEdit "c.lua" Store.Sample.late_edit Store.Sample.store
     = (Store.Sample.store, inl Store.UnknownDocument)
  /\ Store.applyEdit "a.lua" Store.Sample.late_edit Store.Sample.store
     = (Store.Sample.store, inl Store.StaleVersion)
  /\ Store.get "a.lua"
       (Store.applyEdit "a.lua" Store.Sample.late_edit Store.Sample.store).1
     = Some Store.Sample.a_lua.
Proof.
  destruct (applyEdit_unknown_or_stale unit unit unit tt tt Store.Sample.late_edit)
    as [Hunknown Hstale].
  split; [reflexivity |].
  split; [reflexivity |].
  split; [apply (Hunknown Store.Sample.history "c.lua"); reflexivity |].
  apply (Hstale Store.Sample.store "a.lua" Store.Sample.a_lua);
    [reflexivity | cbn; lia].
Defined.

(** ** The lexer *)

Section LexerFacts.
Import Lexer.
Variable scan : list Byte.byte -> option (TokenKind * nat).

Lemma recognize_Some input k n :
  recognize scan input = Some (k, n) ->
  is_lexeme k = true /\ 0 < n /\ n <= length input.
Proof.
  unfold recognize. destruct (scan input) as [[k' n']|]; [| discriminate].
  destruct (is_lexeme k' && (0 <? n') && (n' <=? length input)) eqn:E;
    [| discriminate].
  intros [= <- <-].
  apply andb_prop in E as [E E3]. apply andb_prop in E as [E1 E2].
  apply Nat.ltb_lt in E2. apply Nat.leb_le in E3. auto.
Qed.

(** A lexeme and what is left behind it make up the input. *)
Lemma lexeme_and_rest (b : Byte.byte) rest n :
  0 < n -> take n (b :: rest) ++ drop (Nat.pred n) rest = b :: rest.
Proof.
  intros Hn. destruct n as [|m]; [lia |]. cbn. by rewrite take_drop.
Qed.

Lemma advance_app p (xs ys : list Byte.byte) :
  advance (advance p xs) ys = advance p (xs ++ ys).
Proof. unfold advance. by rewrite fold_left_app. Qed.

Lemma lexeme_kind_not_eof k : is_lexeme k = true -> is_eof k = false.
Proof. by destruct k. Qed.

Lemma lexeme_kind_not_invalid k : is_lexeme k = true -> is_invalid k = false.
Proof. by destruct k. Qed.

(** The tokens end in the end-of-file token, placed behind the input, and
    hold no other. *)
Lemma lex_from_tokens_eof offset p input :
  exists body,
    (lex_from scan offset p input).1
      = body ++ [eof_token (offset + length input) (advance p input)]
    /\ Forall (fun t => is_eof (kind t) = false) body.
Proof.
  funelim (lex_from scan offset p input).
  - exists []. cbn. rewrite Nat.add_0_r. split; [reflexivity | constructor].
  - destruct H as (body & Hbody & Hall).
    apply recognize_Some in Heq as (Hk & Hn & Hlen).
    eexists (_ :: body). cbn [fst]. rewrite Hbody. split.
    + rewrite advance_app, lexeme_and_rest by exact Hn.
      rewrite length_drop. cbn [length] in *.
      replace (offset + n + (length rest - Nat.pred n))
        with (offset + S (length rest)) by lia.
      reflexivity.
    + constructor; [by apply lexeme_kind_not_eof | exact Hall].
  - destruct H as (body & Hbody & Hall).
    eexists (_ :: body). cbn [fst]. rewrite Hbody. split.
    + cbn [length]. replace (S offset + length rest) with (offset + S (length rest)) by lia.
      reflexivity.
    + constructor; [reflexivity | exact Hall].
Qed.

(** The diagnostics are those of the invalid tokens, one each, in
    order. *)
Lemma lex_from_diagnostics offset p input :
  (lex_from scan offset p input).2
  = (fun t => invalid_diagnostic (span_start (span t)))
      <$> List.filter (fun t => is_invalid (kind t)) (lex_from scan offset p input).1.
Proof.
  funelim (lex_from scan offset p input).
  - reflexivity.
  - apply recognize_Some in Heq as (Hk & _ & _).
    cbn [fst snd List.filter kind]. by rewrite (lexeme_kind_not_invalid _ Hk).
  - cbn [fst snd List.filter kind invalid_token is_invalid].
    rewrite H. reflexivity.
Qed.

Lemma lex_from_abut offset p input :
  abut offset (lex_from scan offset p input).1.
Proof.
  funelim (lex_from scan offset p input); cbn; auto.
Qed.

(** Every token is what the grammar makes of the text where it starts. *)
Lemma lex_from_justified offset p input :
  forall pre, offset = length pre ->
    Forall (justified scan (pre ++ input)) (lex_from scan offset p input).1.
Proof.
  funelim (lex_from scan offset p input); intros pre Hoff.
  - constructor; [| constructor].
    unfold justified. cbn. subst offset.
    rewrite app_nil_r, drop_all. by split.
  - pose proof Heq as Hrec.
    apply recognize_Some in Hrec as (Hk & Hn & Hlen).
    constructor.
    + unfold justified. cbn [kind span span_start span_end]. subst offset.
      rewrite drop_app_length, Heq. by split.
    + specialize (H (pre ++ take n (b :: rest))).
      rewrite <- app_assoc, lexeme_and_rest in H by exact Hn.
      apply H. rewrite length_app, length_take. lia.
  - constructor.
    + unfold justified. cbn. subst offset.
      rewrite drop_app_length, Heq. by split.
    + specialize (H (pre ++ [b])). rewrite <- app_assoc in H. cbn in H.
      apply H. rewrite length_app. cbn. lia.
Qed.

(** Every token carries the line and column of its first byte. *)
Lemma lex_from_located offset p input :
  forall pre, offset = length pre -> p = advance start_of_text pre ->
    Forall (located (pre ++ input)) (lex_from scan offset p input).1.
Proof.
  funelim (lex_from scan offset p input); intros pre Hoff Hp.
  - constructor; [| constructor].
    unfold located. cbn. subst offset. by rewrite app_nil_r, take_ge.
  - apply recognize_Some in Heq as (Hk & Hn & Hlen).
    constructor.
    + unfold located. cbn [pos span span_start]. subst offset.
      by rewrite take_app_length.
    + specialize (H (pre ++ take n (b :: rest))).
      rewrite <- app_assoc, lexeme_and_rest in H by exact Hn.
      apply H; [rewrite length_app, length_take; lia |].
      by rewrite Hp, advance_app.
  - constructor.
    + unfold located. cbn. subst offset. by rewrite take_app_length.
    + specialize (H (pre ++ [b])). rewrite <- app_assoc in H. cbn in H.
      apply H; [rewrite length_app; cbn; lia |].
      rewrite Hp. unfold advance. by rewrite fold_left_app.
Qed.

(** The spans of the tokens, put together in order, are the input. *)
Lemma lex_from_roundtrip offset p input :
  forall pre, offset = length pre ->
    concat ((fun t => slice (pre ++ input) (span t))
              <$> (lex_from scan offset p input).1) = input.
Proof.
  funelim (lex_from scan offset p input); intros pre Hoff.
  - cbn. unfold slice. cbn. by rewrite Nat.sub_diag.
  - apply recognize_Some in Heq as (Hk & Hn & Hlen).
    cbn [fst fmap list_fmap concat span].
    specialize (H (pre ++ take n (b :: rest))).
    rewrite <- app_assoc, lexeme_and_rest in H by exact Hn.
    change (list_fmap _ _ ?f ?l) with (f <$> l).
    rewrite H by (rewrite length_app, length_take; lia).
    unfold slice at 1. cbn [span_start span_end]. subst offset.
    rewrite drop_app_length.
    replace (length pre + n - length pre) with n by lia.
    by apply lexeme_and_rest.
  - cbn [fst fmap list_fmap concat span invalid_token].
    specialize (H (pre ++ [b])). rewrite <- app_assoc in H. cbn [app] in H.
    change (list_fmap _ _ ?f ?l) with (f <$> l).
    rewrite H by (rewrite length_app; cbn; lia).
    unfold slice. cbn [span_start span_end]. subst offset.
    rewrite drop_app_length.
    replace (S (length pre) - length pre) with 1 by lia. reflexivity.
Qed.

(** Lexing a whole text is lexing from its first byte. *)
Lemma tokenize_from_start text :
  tokenize scan text = lex_from scan 0 start_of_text text.
Proof. unfold tokenize, lex. by rewrite take_0, drop_0. Qed.

End LexerFacts.

(** C7.  For every lexical grammar and every source text, the empty one
    and any sequence of bytes included, the lexer returns a finite list
    of tokens that is a body without end-of-file token followed by one
    end-of-file token placed at the end of the text.  The tokens lie one
    behind the other from offset 0 on, and each is what the grammar makes
    of the text where it starts: where the grammar recognizes a lexeme,
    a token of that kind and length; where it recognizes none, an invalid
    token over the one unrecognized byte.  The diagnostics are exactly
    one per invalid token, at its span, in order.  Every token carries
    the line and column of its first byte. *)
Theorem lexer_total_one_eof_invalid_diagnosed :
  forall (scan : list Byte.byte -> option (Lexer.TokenKind * nat))
         (text : list Byte.byte),
    let (tokens, diags) := Lexer.tokenize scan text in
    (exists body,
        tokens = body ++ [Lexer.eof_token (length text)
                            (Lexer.advance Lexer.start_of_text text)]
        /\ Forall (fun t => Lexer.is_eof (Lexer.kind t) = false) body)
    /\ Lexer.abut 0 tokens
    /\ Forall (Lexer.justified scan text) tokens
    /\ Forall (Lexer.located text) tokens
    /\ diags
       = (fun t => Lexer.invalid_diagnostic (Lexer.span_start (Lexer.span t)))
           <$> List.filter (fun t => Lexer.is_invalid (Lexer.kind t)) tokens.
Proof.
  intros scan text.
  pose proof (lex_from_tokens_eof scan 0 Lexer.start_of_text text) as Heof.
  pose proof (lex_from_abut scan 0 Lexer.start_of_text text) as Habut.
  pose proof (lex_from_justified scan 0 Lexer.start_of_text text [] eq_refl) as Hjust.
  pose proof (lex_from_located scan 0 Lexer.start_of_text text [] eq_refl eq_refl)
    as Hloc.
  pose proof (lex_from_diagnostics scan 0 Lexer.start_of_text text) as Hdiag.
  rewrite tokenize_from_start.
  change (0 + length text) with (length text) in Heof.
  change ([] ++ text) with text in Hjust, Hloc.
  destruct (Lexer.lex_from scan 0 Lexer.start_of_text text) as [tokens diags].
  cbn [fst snd] in *.
  split; [exact Heof |]. split; [exact Habut |]. split; [exact Hjust |].
  split; [exact Hloc | exact Hdiag].
Qed.

(** C8.  For every lexical grammar and every source text, the source
    spans of the tokens the lexer produces, concatenated in order, are
    the source text. *)
Theorem lexer_spans_roundtrip :
  forall (scan : list Byte.byte -> option (Lexer.TokenKind * nat))
         (text : list Byte.byte),
    concat ((fun t => Lexer.slice text (Lexer.span t))
              <$> (Lexer.tokenize scan text).1) = text.
Proof.
  intros scan text.
  rewrite tokenize_from_start.
  apply (lex_from_roundtrip scan 0 Lexer.start_of_text text [] eq_refl).
Qed.

(** The lexer on the sample grammar: an unrecognized [$] in the middle,
    and the empty text. *)
Example lex_sample :
  (Lexer.kind <$> (Lexer.tokenize Lexer.Sample.scan (Lexer.Sample.bytes "x=1 $y")).1
   = [Lexer.Identifier; Lexer.Operator; Lexer.Literal; Lexer.Whitespace;
      Lexer.Invalid; Lexer.Identifier; Lexer.EndOfFile])
  /\ Lexer.diag_span
       <$> (Lexer.tokenize Lexer.Sample.scan (Lexer.Sample.bytes "x=1 $y")).2
     = [{| Lexer.span_start := 4; Lexer.span_end := 5 |}]
  /\ Lexer.tokenize Lexer.Sample.scan []
     = ([Lexer.eof_token 0 Lexer.start_of_text], []).
Proof. repeat split; reflexivity. Qed.

(** ** The life of a loaded module *)

Section LifecycleFacts.
Context {World : Type}.
Implicit Types (h : Handler World) (rt : Runtime World)
  (cur : option LanguageClient) (l : list Event).

Lemma latest_app cur l1 l2 : latest cur (l1 ++ l2) = latest (latest cur l1) l2.
Proof. unfold latest. apply fold_left_app. Qed.

Lemma targets_latest_app cur l1 l2 :
  targets_latest cur l1 -> targets_latest (latest cur l1) l2 ->
  targets_latest cur (l1 ++ l2).
Proof.
  revert cur. induction l1 as [|e l1 IH]; intros cur H1 H2; [exact H2 |].
  cbn [app targets_latest] in *. destruct H1 as [He H1].
  split; [exact He |]. apply IH; [exact H1 | exact H2].
Qed.

Lemma vscode_extension_steps_well : steps_well (World:=World) vscode_extension.
Proof.
  intros h rt [context|]; cbn [enter vscode_extension ext_activate ext_deactivate].
  - unfold VscodeExtension.activate. script_unfold.
    repeat host_step h; eexists;
      (split; [log_normalize; reflexivity | split; cbn; repeat split; auto]).
  - unfold VscodeExtension.deactivate. script_unfold.
    destruct (client rt) as [c|] eqn:Hc; cbn.
    + host_step h; eexists; (split; [reflexivity | cbn; rewrite ?Hc; auto]).
    + exists []. rewrite app_nil_r, Hc. cbn. auto.
Qed.

Lemma rblx_react_lsp_steps_well : steps_well (World:=World) rblx_react_lsp.
Proof.
  intros h rt [context|]; cbn [enter rblx_react_lsp ext_activate ext_deactivate].
  - unfold RblxReactLsp.activate. script_unfold.
    repeat host_step h; eexists;
      (split; [log_normalize; reflexivity | split; cbn; repeat split; auto]).
  - unfold RblxReactLsp.deactivate. script_unfold.
    destruct (client rt) as [c|] eqn:Hc; cbn.
    + host_step h; eexists; (split; [reflexivity | cbn; rewrite ?Hc; auto]).
    + exists []. rewrite app_nil_r, Hc. cbn. auto.
Qed.

Lemma lifecycle_steps_well (x : Extension World) :
  steps_well x ->
  forall h (es : list Entry) rt,
    exists l,
      log (lifecycle x h es rt) = log rt ++ l
      /\ client (lifecycle x h es rt) = latest (client rt) l
      /\ targets_latest (client rt) l.
Proof.
  intros Hx h es. unfold lifecycle.
  induction es as [|e es IH]; intros rt; cbn [fold_left].
  - exists []. rewrite app_nil_r. cbn. auto.
  - destruct (Hx h rt e) as (l1 & Hlog1 & Hcl1 & Ht1).
    destruct (IH (enter x h rt e)) as (l2 & Hlog2 & Hcl2 & Ht2).
    exists (l1 ++ l2). rewrite Hlog2, Hlog1, Hcl2, Hcl1, latest_app, app_assoc.
    split; [reflexivity | split; [reflexivity |]].
    apply targets_latest_app; [exact Ht1 | by rewrite <- Hcl1].
Qed.

Lemma lifecycle_cons (x : Extension World) h (e : Entry) (es : list Entry) rt :
  lifecycle x h (e :: es) rt = lifecycle x h es (enter x h rt e).
Proof. reflexivity. Qed.

Lemma since_extends rt rt' l : log rt' = log rt ++ l -> since rt rt' = l.
Proof. intros H. unfold since. rewrite H. apply drop_app_length. Qed.

End LifecycleFacts.

(** X1.  Whatever sequence of [activate] and [deactivate] calls the
    editor makes, on whatever host and also across calls that throw, the
    module-level [client] of either front-end is the client returned by
    the last [new LanguageClient(...)] that completed, and the value it
    had before if none did: [deactivate] never resets it, a failed
    construction never touches it. *)
Theorem client_is_latest_constructed :
  forall (World : Type) (h : Handler World) (es : list Entry) (rt : Runtime World),
    Forall (fun x =>
              client (lifecycle x h es rt)
              = latest (client rt) (since rt (lifecycle x h es rt)))
      front_ends.
Proof.
  intros World h es rt.
  repeat constructor.
  - destruct (lifecycle_steps_well _ vscode_extension_steps_well h es rt)
      as (l & Hlog & Hcl & _).
    by rewrite (since_extends _ _ _ Hlog).
  - destruct (lifecycle_steps_well _ rblx_react_lsp_steps_well h es rt)
      as (l & Hlog & Hcl & _).
    by rewrite (since_extends _ _ _ Hlog).
Qed.

(** X2.  In every sequence of [activate] and [deactivate] calls, every
    [start()] and every [stop()] of either front-end is called on the
    client constructed last before that call: a client replaced by a
    later activation is never stopped. *)
Theorem start_and_stop_target_latest_client :
  forall (World : Type) (h : Handler World) (es : list Entry) (rt : Runtime World),
    Forall (fun x => targets_latest (client rt) (since rt (lifecycle x h es rt)))
      front_ends.
Proof.
  intros World h es rt.
  repeat constructor.
  - destruct (lifecycle_steps_well _ vscode_extension_steps_well h es rt)
      as (l & Hlog & _ & Ht).
    by rewrite (since_extends _ _ _ Hlog).
  - destruct (lifecycle_steps_well _ rblx_react_lsp_steps_well h es rt)
      as (l & Hlog & _ & Ht).
    by rewrite (since_extends _ _ _ Hlog).
Qed.

Section RepeatedDeactivate.
Context {World : Type}.
Variable x : Extension World.
Hypothesis x_steps_well : steps_well x.
Hypothesis x_deactivate :
  forall (h : Handler World) (w : World) (l : list Event) (c : LanguageClient),
    (ext_deactivate x h {| client := Some c; world := w; log := l |}).2
    = {| client := Some c;
         world := (h _ (ClientStop c) w).2;
         log := l ++ [Did (ClientStop c) (h _ (ClientStop c) w).1] |}.

Lemma deactivate_n_stops_n (h : Handler World) (n : nat) :
  forall (w : World) (l : list Event) (c : LanguageClient),
    let rt := {| client := Some c; world := w; log := l |} in
    omap stopped (since rt (lifecycle x h (replicate n Deactivate) rt))
    = replicate n c.
Proof.
  induction n as [|n IH]; intros w l c rt; subst rt.
  - cbn. unfold since. cbn. by rewrite drop_all.
  - cbn [replicate]. rewrite lifecycle_cons. cbn [enter]. rewrite x_deactivate.
    specialize (IH (h _ (ClientStop c) w).2
                  (l ++ [Did (ClientStop c) (h _ (ClientStop c) w).1]) c).
    cbn zeta in IH.
    destruct (lifecycle_steps_well x x_steps_well h (replicate n Deactivate)
                {| client := Some c; world := (h _ (ClientStop c) w).2;
                   log := l ++ [Did (ClientStop c) (h _ (ClientStop c) w).1] |})
      as (l2 & Hlog & _).
    rewrite (since_extends _ _ _ Hlog) in IH.
    unfold since. rewrite Hlog. cbn [log].
    rewrite <- app_assoc, drop_app_length. cbn. by rewrite IH.
Qed.

End RepeatedDeactivate.

Lemma deactivate_assigned {World} (x : Extension World) :
  In x front_ends ->
  forall (h : Handler World) (w : World) (l : list Event) (c : LanguageClient),
    (ext_deactivate x h {| client := Some c; world := w; log := l |}).2
    = {| client := Some c;
         world := (h _ (ClientStop c) w).2;
         log := l ++ [Did (ClientStop c) (h _ (ClientStop c) w).1] |}.
Proof.
  intros [<- | [<- | []]] h w l c; cbn [ext_deactivate vscode_extension rblx_react_lsp].
  - unfold VscodeExtension.deactivate. script_unfold.
    by destruct (h Promise (ClientStop c) w) as [[p|e] w'].
  - unfold RblxReactLsp.deactivate. script_unfold.
    by destruct (h Promise (ClientStop c) w) as [[p|e] w'].
Qed.

Lemma front_ends_step_well {World} (x : Extension World) :
  In x front_ends -> steps_well x.
Proof.
  intros [<- | [<- | []]];
    [apply vscode_extension_steps_well | apply rblx_react_lsp_steps_well].
Qed.

(** X3.  [deactivate] never clears [client]: with a client assigned, [n]
    calls of [deactivate] in a row call [stop()] on that same client [n]
    times (the second and later ones on a client already stopped) and
    leave it assigned; with no client assigned they do nothing at all. *)
Theorem deactivate_repeated_stops_again :
  forall (World : Type) (h : Handler World) (n : nat) (w : World)
         (l : list Event) (c : LanguageClient),
    let assigned := {| client := Some c; world := w; log := l |} in
    let unassigned := {| client := None; world := w; log := l |} in
    Forall (fun x =>
              omap stopped
                (since assigned (lifecycle x h (replicate n Deactivate) assigned))
              = replicate n c
              /\ client (lifecycle x h (replicate n Deactivate) assigned) = Some c
              /\ lifecycle x h (replicate n Deactivate) unassigned = unassigned)
      front_ends.
Proof.
  intros World h n w l c assigned unassigned.
  apply Forall_forall. intros x Hx. apply list_elem_of_In in Hx.
  split; [| split].
  - apply deactivate_n_stops_n;
      [by apply front_ends_step_well | by apply deactivate_assigned].
  - subst assigned. clear unassigned. revert w l.
    induction n as [|n IH]; intros w l; [reflexivity |].
    cbn [replicate]. rewrite lifecycle_cons. cbn [enter].
    rewrite (deactivate_assigned x Hx). apply IH.
  - subst unassigned. clear assigned.
    induction n as [|n IH]; [reflexivity |].
    cbn [replicate]. rewrite lifecycle_cons. cbn [enter].
    replace (ext_deactivate x h {| client := None; world := w; log := l |}).2
      with {| client := None; world := w; log := l |}; [exact IH |].
    by destruct Hx as [<- | [<- | []]].
Qed.

(** X4.  [activate] has no guard of its own: it never reads [client]
    before assigning it.  Started in the same host state, it makes the
    same calls, completes the same way and leaves the host in the same
    state whether or not a client is already assigned, so a second
    activation goes through exactly like the first. *)
Theorem activate_ignores_assigned_client :
  forall (World : Type) (h : Handler World) (context : ExtensionContext)
         (w : World) (c1 c2 : option LanguageClient) (l1 l2 : list Event),
    let rt1 := {| client := c1; world := w; log := l1 |} in
    let rt2 := {| client := c2; world := w; log := l2 |} in
    Forall (fun x =>
              (ext_activate x context h rt1).1 = (ext_activate x context h rt2).1
              /\ world (ext_activate x context h rt1).2
                 = world (ext_activate x context h rt2).2
              /\ since rt1 (ext_activate x context h rt1).2
                 = since rt2 (ext_activate x context h rt2).2)
      front_ends.
Proof.
  intros World h context w c1 c2 l1 l2 rt1 rt2. subst rt1 rt2.
  repeat constructor; cbn [ext_activate vscode_extension rblx_react_lsp].
  all: try (unfold VscodeExtension.activate; script_unfold;
            repeat host_step h; log_normalize; reflexivity).
  all: unfold RblxReactLsp.activate; script_unfold;
    repeat host_step h; log_normalize; reflexivity.
Qed.

(** X5.  Activating twice replaces the client without stopping the first
    one: when two activations in a row complete, two clients have been
    constructed and started, [client] is the second, and a following
    [deactivate] calls [stop()] on the second only. *)
Theorem reactivation_replaces_client :
  forall (World : Type) (h : Handler World) (x : Extension World)
         (context1 context2 : ExtensionContext) (rt rt1 rt2 : Runtime World),
    In x front_ends ->
    ext_activate x context1 h rt = (Normal tt, rt1) ->
    ext_activate x context2 h rt1 = (Normal tt, rt2) ->
    let rt3 := (ext_deactivate x h rt2).2 in
    exists c1 c2,
      omap created (since rt rt3) = [c1; c2]
      /\ omap started (since rt rt3) = [c1; c2]
      /\ omap stopped (since rt rt3) = [c2]
      /\ client rt3 = Some c2.
Proof.
  intros World h x context1 context2 rt rt1 rt2 [<- | [<- | []]];
    cbn [ext_activate ext_deactivate vscode_extension rblx_react_lsp].
  - unfold VscodeExtension.activate at 1. script_unfold.
    repeat host_step h; intros H1; try discriminate. injection H1 as <-.
    unfold VscodeExtension.activate. script_unfold.
    repeat host_step h; intros H2; try discriminate. injection H2 as <-.
    unfold VscodeExtension.deactivate. script_unfold.
    host_step h; log_normalize; do 2 eexists; repeat split; reflexivity.
  - unfold RblxReactLsp.activate at 1. script_unfold.
    repeat host_step h; intros H1; try discriminate. injection H1 as <-.
    unfold RblxReactLsp.activate. script_unfold.
    repeat host_step h; intros H2; try discriminate. injection H2 as <-.
    unfold RblxReactLsp.deactivate. script_unfold.
    host_step h; log_normalize; do 2 eexists; repeat split; reflexivity.
Qed.

(** Two activations and a deactivation of rblx-react-lsp on the POSIX
    host: clients 1 and 5 are started, client 5 alone is stopped. *)
Lemma reactivation_replaces_client_witness :
  let rt1 := (RblxReactLsp.activate PosixHost.context PosixHost.handler (loaded 0)).2 in
  let rt2 := (RblxReactLsp.activate PosixHost.context PosixHost.handler rt1).2 in
  let rt3 := (RblxReactLsp.deactivate PosixHost.handler rt2).2 in
  In (rblx_react_lsp (World:=nat)) front_ends
  /\ omap started (log rt3) = [ClientRef 1; ClientRef 5]
  /\ omap stopped (log rt3) = [ClientRef 5]
  /\ exists c1 c2,
      omap created (since (loaded 0) rt3) = [c1; c2]
      /\ omap started (since (loaded 0) rt3) = [c1; c2]
      /\ omap stopped (since (loaded 0) rt3) = [c2]
      /\ client rt3 = Some c2.
Proof.
  intros rt1 rt2 rt3.
  split; [right; left; reflexivity |].
  split; [reflexivity |]. split; [reflexivity |].
  apply (reactivation_replaces_client nat PosixHost.handler rblx_react_lsp
           PosixHost.context PosixHost.context (loaded 0) rt1 rt2);
    [right; left; reflexivity | reflexivity | reflexivity].
Defined.

(** X6.  What the front-ends print.  vscode-extension never calls
    [console.log] and registers no callback.  rblx-react-lsp prints
    [Server V3 starting...] before it constructs the client, so also when
    construction or start then fails, and prints nothing else itself;
    [Server V3 started!] is only handed to [then] as a callback, once for
    a [start()] that returned its promise and never for one that threw. *)
Theorem front_ends_logging :
  forall (World : Type) (h : Handler World) (context : ExtensionContext)
         (rt : Runtime World),
    (let added := since rt (VscodeExtension.activate context h rt).2 in
     omap logged added = [] /\ omap registered added = [])
    /\
    (let added := since rt (RblxReactLsp.activate context h rt).2 in
     omap logged added `prefix_of` ["Server V3 starting..."]
     /\ match omap constructed added with
        | [] => True
        | _ => omap logged added = ["Server V3 starting..."]
        end
     /\ omap registered added
        = (fun _ => LogCallback "Server V3 started!") <$> omap start_returned added).
Proof.
  intros World h context rt. split.
  - unfold VscodeExtension.activate. script_unfold.
    repeat host_step h; log_normalize; split; reflexivity.
  - unfold RblxReactLsp.activate. script_unfold.
    repeat host_step h; log_normalize; cbn;
      (split; [eexists; reflexivity | split; reflexivity || exact I]).
Qed.
